(** * WIB2Frame: accessors of a raw WIB v2 frame (WIB2Frame.hpp)

    A shallow embedding of the class [WIB2Frame] and of its accessors
    [get_adc], [get_u], [get_v], [get_x] and [timestamp], followed by the
    properties of the frame format that hold (or fail) on that code. *)

From Stdlib Require Import ZArith List Lia Bool String.
Import ListNotations.

Local Open Scope Z_scope.

(* ================================================================= *)
(** ** Machine integers *)

(** [int] is a 32-bit signed type; signed overflow has no defined result. *)
Definition INT_MIN : Z := - 2 ^ 31.
Definition INT_MAX : Z := 2 ^ 31 - 1.
Definition in_int (z : Z) : bool := (INT_MIN <=? z) && (z <=? INT_MAX).

(** Conversions to the unsigned types reduce modulo the width. *)
Definition to_uint16 (z : Z) : Z := z mod 2 ^ 16.
Definition to_uint32 (z : Z) : Z := z mod 2 ^ 32.
Definition to_uint64 (z : Z) : Z := z mod 2 ^ 64.

(** [typedef uint32_t word_t;] *)
Definition sizeof_word_t : Z := 4.
Definition is_word (w : Z) : Prop := 0 <= w < 2 ^ 32.

(* ================================================================= *)
(** ** Data members *)

Record Header := {
  crate : Z;          (* : 8  *)
  frame_version : Z;  (* : 4  *)
  slot : Z;           (* : 3  *)
  fiber : Z;          (* : 1  *)
  femb_valid : Z;     (* : 2  *)
  wib_code_1 : Z;     (* : 14 *)
  wib_code_2 : Z;     (* : 32 *)
  timestamp_1 : Z;    (* : 32 *)
  timestamp_2 : Z     (* : 32 *)
}.

Record Trailer := {
  crc20 : Z;          (* : 20 *)
  flex_word_12 : Z;   (* : 12 *)
  eof : Z;            (* : 8  *)
  flex_word_24 : Z    (* : 24 *)
}.

(** [word_t adc_words[112];] *)
Definition ADC_WORDS : Z := 112.

Record WIB2Frame := {
  header : Header;
  adc_words : list Z;
  trailer : Trailer
}.

(** A bit-field of width [n] holds a value in [0, 2^n). *)
Definition fits (n v : Z) : Prop := 0 <= v < 2 ^ n.

Definition Header_ok (h : Header) : Prop :=
  fits 8 (crate h) /\ fits 4 (frame_version h) /\ fits 3 (slot h) /\
  fits 1 (fiber h) /\ fits 2 (femb_valid h) /\ fits 14 (wib_code_1 h) /\
  fits 32 (wib_code_2 h) /\ fits 32 (timestamp_1 h) /\ fits 32 (timestamp_2 h).

Definition Trailer_ok (t : Trailer) : Prop :=
  fits 20 (crc20 t) /\ fits 12 (flex_word_12 t) /\
  fits 8 (eof t) /\ fits 24 (flex_word_24 t).

(** The values a [WIB2Frame] object can hold. *)
Definition WIB2Frame_ok (f : WIB2Frame) : Prop :=
  Header_ok (header f) /\
  Z.of_nat (List.length (adc_words f)) = ADC_WORDS /\
  Forall is_word (adc_words f) /\
  Trailer_ok (trailer f).

(* ================================================================= *)
(** ** Execution model

    A member function runs on the object [this] and ends in one of four
    ways.  The machine also keeps the list of the members it has read, most
    recent first, so that statements on what an accessor reads can be made. *)

Inductive exception :=
| out_of_range (what : string).

Inductive outcome (A : Type) :=
| Returns (a : A)            (* normal return *)
| Throws (e : exception)     (* an exception leaves the function *)
| Aborts                     (* a failed assert() calls abort() *)
| Undefined.                 (* behaviour the language leaves undefined *)

Arguments Returns {A} a.
Arguments Throws {A} e.
Arguments Aborts {A}.
Arguments Undefined {A}.

Inductive access :=
| Read_adc_words (k : Z)
| Read_timestamp_1
| Read_timestamp_2.

Record machine := {
  this : WIB2Frame;
  reads : list access
}.

Definition M (A : Type) : Type := machine -> outcome A * machine.

Definition ret {A} (a : A) : M A := fun m => (Returns a, m).

Definition bind {A B} (c : M A) (k : A -> M B) : M B :=
  fun m =>
    match c m with
    | (Returns a, m') => k a m'
    | (Throws e, m') => (Throws e, m')
    | (Aborts, m') => (Aborts, m')
    | (Undefined, m') => (Undefined, m')
    end.

Notation "x <- c ;; k" := (bind c (fun x => k))
  (at level 61, c at next level, right associativity).
Notation "c ;;; k" := (bind c (fun _ => k))
  (at level 61, right associativity).

Definition throw {A} (e : exception) : M A := fun m => (Throws e, m).
Definition abort {A} : M A := fun m => (Aborts, m).
Definition undefined {A} : M A := fun m => (Undefined, m).

(** Recording a read. *)
Definition note (a : access) (m : machine) : machine :=
  {| this := this m; reads := a :: reads m |}.
Definition logged (a : access) : M unit := fun m => (Returns tt, note a m).

Definition adc_word (f : WIB2Frame) (k : Z) : Z :=
  nth (Z.to_nat k) (adc_words f) 0.

(** The value of an [int] expression: undefined when it overflows. *)
Definition int_ (z : Z) : M Z := if in_int z then ret z else undefined.

(** [w >> n] and [w << n] on a 32-bit unsigned [w]. *)
Definition shr_u32 (w n : Z) : M Z :=
  if (0 <=? n) && (n <? 32) then ret (Z.shiftr w n) else undefined.
Definition shl_u32 (w n : Z) : M Z :=
  if (0 <=? n) && (n <? 32) then ret (to_uint32 (Z.shiftl w n)) else undefined.

(** [adc_words[k]]: reading outside the array is undefined. *)
Definition load_adc_words (k : Z) : M Z :=
  logged (Read_adc_words k) ;;;
  if (0 <=? k) && (k <? ADC_WORDS)
  then fun m => (Returns (adc_word (this m) k), m)
  else undefined.

Definition load_timestamp_1 : M Z :=
  logged Read_timestamp_1 ;;;
  fun m => (Returns (timestamp_1 (header (this m))), m).

Definition load_timestamp_2 : M Z :=
  logged Read_timestamp_2 ;;;
  fun m => (Returns (timestamp_2 (header (this m))), m).

(** Running an accessor on a frame, with nothing read yet. *)
Definition run {A} (c : M A) (f : WIB2Frame) : outcome A * machine :=
  c {| this := f; reads := [] |}.
Definition result {A} (c : M A) (f : WIB2Frame) : outcome A := fst (run c f).
Definition frame_after {A} (c : M A) (f : WIB2Frame) : WIB2Frame :=
  this (snd (run c f)).
Definition reads_of {A} (c : M A) (f : WIB2Frame) : list access :=
  rev (reads (snd (run c f))).

(** An accessor is read-only when the object is the same after it as
    before it, from every state and however the accessor ends. *)
Definition read_only {A} (c : M A) : Prop :=
  forall m : machine, this (snd (c m)) = this m.

(* ================================================================= *)
(** ** Accessors *)

Section Accessors.

(** [assert] is compiled out when the macro [NDEBUG] is defined. *)
Variable NDEBUG : bool.

Definition assert (c : M bool) : M unit :=
  if NDEBUG then ret tt
  else b <- c ;; if b then ret tt else abort.

Definition BITS_PER_ADC : Z := 14.
Definition BITS_PER_WORD : Z := 8 * sizeof_word_t.

(** [uint16_t get_adc(int i)] *)
Definition get_adc (i : Z) : M Z :=
  if (i <? 0) || (i >? 255)
  then throw (out_of_range "ADC index out of range")
  else
    (* The index of the first (and sometimes only) word containing the
       required ADC value *)
    p <- int_ (BITS_PER_ADC * i) ;;
    let word_index := Z.quot p BITS_PER_WORD in
    assert (ret (word_index <? 112)) ;;;
    (* Where in the word the lowest bit of our ADC value is located *)
    q <- int_ (BITS_PER_ADC * i) ;;
    let first_bit_position := Z.rem q BITS_PER_WORD in
    (* How many bits of our desired ADC are located in the
       [word_index]th word *)
    d <- int_ (BITS_PER_WORD - first_bit_position) ;;
    let bits_from_first_word := Z.min BITS_PER_ADC d in
    w0 <- load_adc_words word_index ;;
    lo <- shr_u32 w0 first_bit_position ;;
    let adc := to_uint16 lo in
    (* If we didn't get the full 14 bits from this word, we need the rest
       from the next word *)
    adc <- (if bits_from_first_word <? BITS_PER_WORD
            then
              assert (n <- int_ (word_index + 1) ;; ret (n <? 112)) ;;;
              n <- int_ (word_index + 1) ;;
              w1 <- load_adc_words n ;;
              hi <- shl_u32 w1 bits_from_first_word ;;
              ret (to_uint16 (Z.lor adc hi))
            else ret adc) ;;
    (* Mask out all but the lowest 14 bits *)
    ret (to_uint16 (Z.land adc 16383)).

(** [uint16_t get_u(int femb, int i)] *)
Definition get_u (femb i : Z) : M Z :=
  a <- int_ (128 * femb) ;;
  k <- int_ (a + i) ;;
  get_adc k.

(** [uint16_t get_v(int femb, int i)] *)
Definition get_v (femb i : Z) : M Z :=
  a <- int_ (128 * femb) ;;
  b <- int_ (a + 40) ;;
  k <- int_ (b + i) ;;
  get_adc k.

(** [uint16_t get_x(int femb, int i)] *)
Definition get_x (femb i : Z) : M Z :=
  a <- int_ (128 * femb) ;;
  b <- int_ (a + 40) ;;
  c <- int_ (b + 40) ;;
  k <- int_ (c + i) ;;
  get_adc k.

(** [uint64_t timestamp() const] *)
Definition timestamp : M Z :=
  t1 <- load_timestamp_1 ;;
  t2 <- load_timestamp_2 ;;
  ret (Z.lor t1 (to_uint64 (Z.shiftl (to_uint64 t2) 32))).

End Accessors.

(* ================================================================= *)
(** ** Derived quantities of [get_adc]

    The locals of [get_adc] as functions of the index, for stating what the
    function computes. *)

Definition word_index (i : Z) : Z := Z.quot (BITS_PER_ADC * i) BITS_PER_WORD.
Definition first_bit_position (i : Z) : Z :=
  Z.rem (BITS_PER_ADC * i) BITS_PER_WORD.
Definition bits_from_first_word (i : Z) : Z :=
  Z.min BITS_PER_ADC (BITS_PER_WORD - first_bit_position i).

(** The value [get_adc] builds from the two words it reads. *)
Definition adc_of_words (w0 w1 fbp bffw : Z) : Z :=
  to_uint16
    (Z.land
       (to_uint16 (Z.lor (to_uint16 (Z.shiftr w0 fbp))
                         (to_uint32 (Z.shiftl w1 bffw))))
       16383).

(* ================================================================= *)
(** ** Packing of the payload *)

(** Modelled from the spec: the packing of the samples into the payload
    region, for which the repository has no code (it only reads frames).
    Sample [i] occupies bits [14*i .. 14*i+13] of the region, counted from
    the least significant bit of payload word 0 upward. *)
Fixpoint payload_bits (vs : list Z) : Z :=
  match vs with
  | [] => 0
  | v :: vs' => Z.lor v (Z.shiftl (payload_bits vs') 14)
  end.

(** Modelled from the spec: payload word [k] holds bits
    [32*k .. 32*k+31] of the region, least significant bit first. *)
Definition payload_word (region : Z) (k : nat) : Z :=
  Z.shiftr region (32 * Z.of_nat k) mod 2 ^ 32.

(** Modelled from the spec: the 112 payload words, in ascending order. *)
Definition pack (vs : list Z) : list Z :=
  map (payload_word (payload_bits vs)) (seq 0 112).

(** 256 chosen 14-bit values. *)
Definition samples_ok (vs : list Z) : Prop :=
  List.length vs = 256%nat /\ Forall (fits 14) vs.

(* ================================================================= *)
(** ** Layout of the bit-fields

    The language leaves the allocation of bit-fields to the implementation.
    This is the rule of the Itanium C++ ABI, which GCC and Clang follow:
    bit-fields are allocated in declaration order, from the least
    significant bit of a storage unit of the declared type; a bit-field
    starts at the next free bit unless it would then cross a boundary of
    such a unit, in which case it starts at the next boundary. *)

Record bitfield := {
  bf_name : string;
  bf_width : Z
}.

(** A bit-field placed in a struct: the word it lies in and its first and
    last bit in that word. *)
Record placement := {
  pl_name : string;
  pl_word : Z;
  pl_first : Z;
  pl_last : Z
}.

Definition word_bits : Z := 8 * sizeof_word_t.

Definition start_of (off width : Z) : Z :=
  if off mod word_bits + width <=? word_bits
  then off
  else (off / word_bits + 1) * word_bits.

Fixpoint allocate (off : Z) (fs : list bitfield) : list placement * Z :=
  match fs with
  | [] => ([], off)
  | f :: fs' =>
      let s := start_of off (bf_width f) in
      let (ps, e) := allocate (s + bf_width f) fs' in
      ({| pl_name := bf_name f;
          pl_word := s / word_bits;
          pl_first := s mod word_bits;
          pl_last := s mod word_bits + bf_width f - 1 |} :: ps, e)
  end.

(** Size of a struct of [word_t] bit-fields, in words. *)
Definition words_of (fs : list bitfield) : Z :=
  (snd (allocate 0 fs) + word_bits - 1) / word_bits.

Definition Header_fields : list bitfield :=
  [ {| bf_name := "crate"; bf_width := 8 |};
    {| bf_name := "frame_version"; bf_width := 4 |};
    {| bf_name := "slot"; bf_width := 3 |};
    {| bf_name := "fiber"; bf_width := 1 |};
    {| bf_name := "femb_valid"; bf_width := 2 |};
    {| bf_name := "wib_code_1"; bf_width := 14 |};
    {| bf_name := "wib_code_2"; bf_width := 32 |};
    {| bf_name := "timestamp_1"; bf_width := 32 |};
    {| bf_name := "timestamp_2"; bf_width := 32 |} ].

Definition Trailer_fields : list bitfield :=
  [ {| bf_name := "crc20"; bf_width := 20 |};
    {| bf_name := "flex_word_12"; bf_width := 12 |};
    {| bf_name := "eof"; bf_width := 8 |};
    {| bf_name := "flex_word_24"; bf_width := 24 |} ].

(** Bits the members of a struct declare together. *)
Definition declared_bits (fs : list bitfield) : Z :=
  fold_right (fun f n => bf_width f + n) 0 fs.

Definition Header_words : Z := words_of Header_fields.
Definition Trailer_words : Z := words_of Trailer_fields.
Definition WIB2Frame_words : Z := Header_words + ADC_WORDS + Trailer_words.
Definition WIB2Frame_bytes : Z := sizeof_word_t * WIB2Frame_words.

(** Where a member of [trailer] lies in the frame:
    (frame word, first bit, last bit). *)
Definition trailer_field (name : string) : option (Z * Z * Z) :=
  match find (fun p => String.eqb (pl_name p) name)
             (fst (allocate 0 Trailer_fields)) with
  | Some p => Some (Header_words + ADC_WORDS + pl_word p, pl_first p, pl_last p)
  | None => None
  end.

(* ================================================================= *)
(** ** Frames used as examples *)

Definition zero_header : Header := Build_Header 0 0 0 0 0 0 0 0 0.
Definition zero_trailer : Trailer := Build_Trailer 0 0 0 0.
Definition zero_frame : WIB2Frame :=
  Build_WIB2Frame zero_header (repeat 0 112) zero_trailer.

(** A frame whose timestamp is about to carry into its high half. *)
Definition rollover_frame : WIB2Frame :=
  Build_WIB2Frame (Build_Header 0 0 0 0 0 0 0 4294967295 1)
                  (repeat 0 112) zero_trailer.

(** A frame with sample 0 set and a chosen payload word 1. *)
Definition one_sample_frame (next : Z) : WIB2Frame :=
  Build_WIB2Frame zero_header (5461 :: next :: repeat 0 110) zero_trailer.

(** The samples [0, 1, ..., 255] and the frame that carries them. *)
Definition ramp : list Z := map Z.of_nat (seq 0 256).
Definition ramp_frame : WIB2Frame :=
  Build_WIB2Frame zero_header (pack ramp) zero_trailer.

(* ================================================================= *)
(** ** Vocabulary for the further properties *)

(** The words of an array read as one number, word 0 least significant. *)
Fixpoint le_words (ws : list Z) : Z :=
  match ws with
  | [] => 0
  | w :: ws' => w + 2 ^ 32 * le_words ws'
  end.

(** Whether a read stays inside the members of the object. *)
Definition inside_object (a : access) : bool :=
  match a with
  | Read_adc_words k => (0 <=? k) && (k <? ADC_WORDS)
  | Read_timestamp_1 | Read_timestamp_2 => true
  end.

(** The channel groups of a FEMB, in the order and with the counts that the
    comment of [get_adc] gives: 40 U, 40 V, 48 X (collection). *)
Inductive channel :=
| U_channel
| V_channel
| X_channel.

Definition channel_count (c : channel) : Z :=
  match c with
  | U_channel => 40
  | V_channel => 40
  | X_channel => 48
  end.

(** The accessor of a channel group. *)
Definition get_channel (nd : bool) (c : channel) (femb i : Z) : M Z :=
  match c with
  | U_channel => get_u nd femb i
  | V_channel => get_v nd femb i
  | X_channel => get_x nd femb i
  end.

(** The place in the order of the comment of [get_adc]: the channels of
    FEMB0 first, U before V before X. *)
Definition documented_index (c : channel) (femb i : Z) : Z :=
  femb * (channel_count U_channel + channel_count V_channel
          + channel_count X_channel)
  + match c with
    | U_channel => 0
    | V_channel => channel_count U_channel
    | X_channel => channel_count U_channel + channel_count V_channel
    end
  + i.

Definition valid_channel (c : channel) (femb i : Z) : Prop :=
  0 <= femb <= 1 /\ 0 <= i < channel_count c.

(** Where a member of [header] lies in the frame:
    (frame word, first bit, last bit). *)
Definition header_field (name : string) : option (Z * Z * Z) :=
  match find (fun p => String.eqb (pl_name p) name)
             (fst (allocate 0 Header_fields)) with
  | Some p => Some (pl_word p, pl_first p, pl_last p)
  | None => None
  end.

(** A machine about to run on a frame. *)
Definition fresh (f : WIB2Frame) : machine := {| this := f; reads := [] |}.

(* ================================================================= *)
(** * Properties *)

(** ** Stepping through the execution model *)

Lemma bind_ret {A B} (a : A) (k : A -> M B) (m : machine) :
  bind (ret a) k m = k a m.
Proof. reflexivity. Qed.

Lemma int_in_range (z : Z) : INT_MIN <= z <= INT_MAX -> int_ z = ret z.
Proof.
  intros H. unfold int_, in_int.
  destruct (Z.leb_spec INT_MIN z), (Z.leb_spec z INT_MAX); simpl; trivial; lia.
Qed.

Lemma shr_u32_ok (w n : Z) : 0 <= n < 32 -> shr_u32 w n = ret (Z.shiftr w n).
Proof.
  intros H. unfold shr_u32.
  destruct (Z.leb_spec 0 n), (Z.ltb_spec n 32); simpl; trivial; lia.
Qed.

Lemma shl_u32_ok (w n : Z) :
  0 <= n < 32 -> shl_u32 w n = ret (to_uint32 (Z.shiftl w n)).
Proof.
  intros H. unfold shl_u32.
  destruct (Z.leb_spec 0 n), (Z.ltb_spec n 32); simpl; trivial; lia.
Qed.

Lemma assert_holds (nd : bool) : assert nd (ret true) = ret tt.
Proof. destruct nd; reflexivity. Qed.

(** ** Arithmetic of the index *)

Lemma word_index_div (i : Z) : 0 <= i -> word_index i = 14 * i / 32.
Proof.
  intros H. unfold word_index, BITS_PER_ADC, BITS_PER_WORD, sizeof_word_t.
  apply Z.quot_div_nonneg; lia.
Qed.

Lemma first_bit_position_mod (i : Z) :
  0 <= i -> first_bit_position i = (14 * i) mod 32.
Proof.
  intros H. unfold first_bit_position, BITS_PER_ADC, BITS_PER_WORD, sizeof_word_t.
  apply Z.rem_mod_nonneg; lia.
Qed.

Lemma offset_split (i : Z) :
  0 <= i -> 14 * i = 32 * word_index i + first_bit_position i.
Proof.
  intros H. rewrite word_index_div, first_bit_position_mod by trivial.
  apply Z.div_mod. lia.
Qed.

Lemma first_bit_position_range (i : Z) :
  0 <= i -> 0 <= first_bit_position i < 32.
Proof.
  intros H. rewrite first_bit_position_mod by trivial.
  apply Z.mod_pos_bound. lia.
Qed.

Lemma word_index_range (i : Z) : 0 <= i <= 255 -> 0 <= word_index i <= 111.
Proof.
  intros H. pose proof (offset_split i) as E.
  pose proof (first_bit_position_range i). lia.
Qed.

Lemma bits_from_first_word_range (i : Z) :
  0 <= i -> 1 <= bits_from_first_word i <= 14.
Proof.
  intros H. pose proof (first_bit_position_range i H).
  unfold bits_from_first_word, BITS_PER_ADC, BITS_PER_WORD, sizeof_word_t. lia.
Qed.

(** ** What [get_adc] does on an index in range *)

Lemma load_adc_words_inside (k : Z) (m : machine) :
  0 <= k < 112 ->
  load_adc_words k m = (Returns (adc_word (this m) k), note (Read_adc_words k) m).
Proof.
  intros H. unfold load_adc_words, ADC_WORDS, bind, logged.
  destruct (Z.leb_spec 0 k), (Z.ltb_spec k 112); simpl; trivial; lia.
Qed.

Lemma load_adc_words_outside (k : Z) (m : machine) :
  112 <= k ->
  load_adc_words k m = (Undefined, note (Read_adc_words k) m).
Proof.
  intros H. unfold load_adc_words, ADC_WORDS, bind, logged.
  destruct (Z.leb_spec 0 k), (Z.ltb_spec k 112); simpl; trivial; lia.
Qed.

Lemma get_adc_guard (i : Z) :
  (i <? 0) || (i >? 255) = false <-> 0 <= i <= 255.
Proof.
  rewrite orb_false_iff, Z.gtb_ltb, !Z.ltb_ge. lia.
Qed.

Ltac step := rewrite bind_ret; cbv beta.

Lemma get_adc_run (nd : bool) (i : Z) (m : machine) :
  0 <= i <= 255 ->
  get_adc nd i m =
    let m1 := note (Read_adc_words (word_index i)) m in
    let m2 := note (Read_adc_words (word_index i + 1)) m1 in
    if word_index i + 1 <? 112
    then (Returns (adc_of_words (adc_word (this m) (word_index i))
                                (adc_word (this m) (word_index i + 1))
                                (first_bit_position i)
                                (bits_from_first_word i)), m2)
    else if nd then (Undefined, m2) else (Aborts, m1).
Proof.
  intros H.
  pose proof (word_index_range i H) as Hw.
  pose proof (first_bit_position_range i (proj1 H)) as Hf.
  pose proof (bits_from_first_word_range i (proj1 H)) as Hb.
  unfold get_adc.
  rewrite (proj2 (get_adc_guard i) H).
  rewrite (int_in_range (BITS_PER_ADC * i))
    by (unfold BITS_PER_ADC, INT_MIN, INT_MAX; lia).
  step. fold (word_index i).
  replace (word_index i <? 112) with true by (symmetry; apply Z.ltb_lt; lia).
  rewrite assert_holds. step. step.
  fold (first_bit_position i).
  rewrite (int_in_range (BITS_PER_WORD - first_bit_position i))
    by (unfold BITS_PER_WORD, sizeof_word_t, INT_MIN, INT_MAX; lia).
  step. fold (bits_from_first_word i).
  replace (bits_from_first_word i <? BITS_PER_WORD) with true
    by (symmetry; apply Z.ltb_lt; unfold BITS_PER_WORD, sizeof_word_t; lia).
  rewrite (int_in_range (word_index i + 1))
    by (unfold INT_MIN, INT_MAX; lia).
  unfold bind at 1. rewrite load_adc_words_inside by lia.
  rewrite (shr_u32_ok _ _ Hf). step.
  change (n <- ret (word_index i + 1);; ret (n <? 112))
    with (ret (word_index i + 1 <? 112)).
  destruct (Z.ltb_spec (word_index i + 1) 112) as [Hn | Hn].
  - rewrite assert_holds. unfold bind, ret.
    rewrite load_adc_words_inside by lia.
    rewrite shl_u32_ok by lia. reflexivity.
  - destruct nd; unfold assert, bind, ret; trivial.
    rewrite load_adc_words_outside by lia. reflexivity.
Qed.

(** ** Bits of the value built by [get_adc] *)

Lemma fits_testbit_high (n v k : Z) :
  0 <= n -> fits n v -> n <= k -> Z.testbit v k = false.
Proof.
  intros Hn Hv Hk. unfold fits in Hv.
  rewrite <- (Z.mod_small v (2 ^ n)) by trivial.
  apply Z.mod_pow2_bits_high. lia.
Qed.

Lemma adc_of_words_mod (w0 w1 fbp bffw : Z) :
  adc_of_words w0 w1 fbp bffw =
  Z.lor (to_uint16 (Z.shiftr w0 fbp)) (to_uint32 (Z.shiftl w1 bffw)) mod 2 ^ 14.
Proof.
  unfold adc_of_words.
  set (x := Z.lor _ _).
  change 16383 with (Z.ones 14).
  rewrite Z.land_ones by lia.
  unfold to_uint16.
  apply Z.bits_inj'. intros n Hn.
  rewrite !Z.testbit_mod_pow2 by lia.
  destruct (Z.ltb_spec n 14), (Z.ltb_spec n 16); simpl; trivial; lia.
Qed.

Lemma adc_of_words_range (w0 w1 fbp bffw : Z) :
  0 <= adc_of_words w0 w1 fbp bffw <= 16383.
Proof.
  rewrite adc_of_words_mod.
  pose proof (Z.mod_pos_bound
    (Z.lor (to_uint16 (Z.shiftr w0 fbp)) (to_uint32 (Z.shiftl w1 bffw)))
    (2 ^ 14)).
  lia.
Qed.

Lemma adc_of_words_testbit (w0 w1 fbp n : Z) :
  is_word w0 -> 0 <= fbp < 32 -> 0 <= n < 14 ->
  Z.testbit (adc_of_words w0 w1 fbp (Z.min 14 (32 - fbp))) n =
  if n + fbp <? 32 then Z.testbit w0 (n + fbp) else Z.testbit w1 (n + fbp - 32).
Proof.
  intros Hw Hf Hn.
  rewrite adc_of_words_mod. unfold to_uint16, to_uint32.
  rewrite Z.mod_pow2_bits_low by lia.
  rewrite Z.lor_spec, !Z.mod_pow2_bits_low by lia.
  rewrite Z.shiftr_spec by lia.
  destruct (Z.ltb_spec (n + fbp) 32) as [Hlt | Hge].
  - rewrite Z.shiftl_spec_low by lia. apply orb_false_r.
  - rewrite (fits_testbit_high 32 w0) by (trivial; lia).
    rewrite Z.shiftl_spec by lia. cbn [orb].
    f_equal. lia.
Qed.

(** When the sample lies in one word, the second word does not matter. *)
Lemma adc_of_words_one_word (w0 w1 w1' fbp : Z) :
  adc_of_words w0 w1 fbp 14 = adc_of_words w0 w1' fbp 14.
Proof.
  rewrite !adc_of_words_mod. unfold to_uint16, to_uint32.
  apply Z.bits_inj'. intros n Hn.
  rewrite !Z.testbit_mod_pow2 by lia.
  destruct (Z.ltb_spec n 14); cbn [andb]; trivial.
  rewrite !Z.lor_spec, !(Z.mod_pow2_bits_low _ 32) by lia.
  rewrite !Z.shiftl_spec_low by lia. trivial.
Qed.

(** ** Bits of a packed payload *)

Lemma payload_bits_testbit (vs : list Z) :
  Forall (fits 14) vs ->
  forall (i : nat) (n : Z),
    (i < List.length vs)%nat -> 0 <= n < 14 ->
    Z.testbit (payload_bits vs) (14 * Z.of_nat i + n) = Z.testbit (nth i vs 0) n.
Proof.
  induction 1 as [| v vs' Hv Hvs IH]; intros i n Hi Hn; simpl in Hi.
  - lia.
  - cbn [payload_bits]. rewrite Z.lor_spec.
    destruct i as [| i'].
    + rewrite Z.shiftl_spec_low by lia.
      rewrite orb_false_r. cbn [nth]. f_equal.
    + rewrite (fits_testbit_high 14 v) by (trivial; lia).
      rewrite Z.shiftl_spec by lia. cbn [orb nth].
      rewrite <- IH by (trivial; lia).
      f_equal. lia.
Qed.

Lemma payload_word_is_word (region : Z) (k : nat) :
  is_word (payload_word region k).
Proof. unfold is_word, payload_word. apply Z.mod_pos_bound. lia. Qed.

Lemma payload_word_testbit (region : Z) (k : nat) (j : Z) :
  0 <= j < 32 ->
  Z.testbit (payload_word region k) j = Z.testbit region (j + 32 * Z.of_nat k).
Proof.
  intros Hj. unfold payload_word.
  rewrite Z.mod_pow2_bits_low by lia.
  apply Z.shiftr_spec. lia.
Qed.

Lemma length_pack (vs : list Z) : List.length (pack vs) = 112%nat.
Proof. unfold pack. rewrite length_map, length_seq. trivial. Qed.

Lemma nth_pack (vs : list Z) (k : Z) :
  0 <= k < 112 ->
  nth (Z.to_nat k) (pack vs) 0 = payload_word (payload_bits vs) (Z.to_nat k).
Proof.
  intros Hk. unfold pack.
  rewrite nth_indep with (d' := payload_word (payload_bits vs) 0)
    by (rewrite length_map, length_seq; lia).
  rewrite map_nth, seq_nth by lia. trivial.
Qed.

Lemma pack_is_word (vs : list Z) : Forall is_word (pack vs).
Proof.
  unfold pack. apply Forall_forall. intros w Hw.
  apply in_map_iff in Hw. destruct Hw as [k [<- _]].
  apply payload_word_is_word.
Qed.

(** ** Outcomes of [get_adc] over the whole range of [int] *)

Lemma word_index_next_inside (i : Z) :
  0 <= i <= 253 -> word_index i + 1 < 112.
Proof.
  intros H. pose proof (offset_split i).
  pose proof (first_bit_position_range i). lia.
Qed.

Lemma word_index_last (i : Z) : 254 <= i <= 255 -> word_index i = 111.
Proof.
  intros H. pose proof (offset_split i).
  pose proof (first_bit_position_range i). lia.
Qed.

Lemma get_adc_throws (nd : bool) (i : Z) (m : machine) :
  i < 0 \/ 255 < i ->
  get_adc nd i m = (Throws (out_of_range "ADC index out of range"), m).
Proof.
  intros H. unfold get_adc.
  destruct ((i <? 0) || (i >? 255)) eqn:G; trivial.
  apply get_adc_guard in G. lia.
Qed.

Lemma get_adc_returns (nd : bool) (i : Z) (m : machine) :
  0 <= i <= 253 ->
  get_adc nd i m =
  (Returns (adc_of_words (adc_word (this m) (word_index i))
                         (adc_word (this m) (word_index i + 1))
                         (first_bit_position i) (bits_from_first_word i)),
   note (Read_adc_words (word_index i + 1))
        (note (Read_adc_words (word_index i)) m)).
Proof.
  intros H. rewrite get_adc_run by lia. cbv zeta.
  pose proof (word_index_next_inside i H).
  destruct (Z.ltb_spec (word_index i + 1) 112); trivial; lia.
Qed.

Lemma get_adc_last_two (nd : bool) (i : Z) (m : machine) :
  254 <= i <= 255 ->
  get_adc nd i m =
  if nd
  then (Undefined, note (Read_adc_words 112) (note (Read_adc_words 111) m))
  else (Aborts, note (Read_adc_words 111) m).
Proof.
  intros H. rewrite get_adc_run by lia. cbv zeta.
  rewrite (word_index_last i H). reflexivity.
Qed.

(** The frame is the same after [get_adc], however it ends. *)
Lemma get_adc_this (nd : bool) (i : Z) (m : machine) :
  this (snd (get_adc nd i m)) = this m.
Proof.
  destruct (Z.ltb_spec i 0); [ rewrite get_adc_throws by lia; trivial |].
  destruct (Z.ltb_spec 255 i); [ rewrite get_adc_throws by lia; trivial |].
  rewrite get_adc_run by lia. cbv zeta.
  destruct (word_index i + 1 <? 112); [ | destruct nd ]; reflexivity.
Qed.

(** ** Round trip through a packed payload, where [get_adc] returns *)

Lemma get_adc_roundtrip (nd : bool) (h : Header) (t : Trailer)
      (vs : list Z) (i : Z) :
  samples_ok vs -> 0 <= i <= 253 ->
  result (get_adc nd i) (Build_WIB2Frame h (pack vs) t) =
  Returns (nth (Z.to_nat i) vs 0).
Proof.
  intros [Hlen Hvs] Hi. unfold result, run.
  rewrite get_adc_returns by trivial. cbn [fst this]. f_equal.
  pose proof (word_index_next_inside i Hi) as Hn.
  pose proof (word_index_range i ltac:(lia)) as Hw.
  pose proof (first_bit_position_range i (proj1 Hi)) as Hf.
  pose proof (offset_split i (proj1 Hi)) as Ho.
  unfold adc_word. cbn [adc_words].
  rewrite !nth_pack by lia.
  assert (Hv : fits 14 (nth (Z.to_nat i) vs 0)).
  { rewrite Forall_forall in Hvs. apply Hvs, nth_In. lia. }
  apply Z.bits_inj'. intros n Hn0.
  destruct (Z.ltb_spec n 14) as [Hlt | Hge].
  - unfold bits_from_first_word, BITS_PER_ADC.
    change BITS_PER_WORD with 32.
    rewrite adc_of_words_testbit
      by (auto using payload_word_is_word; lia).
    rewrite <- (payload_bits_testbit vs Hvs (Z.to_nat i) n) by lia.
    destruct (Z.ltb_spec (n + first_bit_position i) 32).
    + rewrite payload_word_testbit by lia. f_equal. lia.
    + rewrite payload_word_testbit by lia. f_equal. lia.
  - rewrite (fits_testbit_high 14 (nth _ vs 0)) by (trivial; lia).
    apply (fits_testbit_high 14); try lia.
    pose proof (adc_of_words_range
      (payload_word (payload_bits vs) (Z.to_nat (word_index i)))
      (payload_word (payload_bits vs) (Z.to_nat (word_index i + 1)))
      (first_bit_position i) (bits_from_first_word i)).
    unfold fits. lia.
Qed.

(** ** Read-only computations *)

Lemma read_only_ret {A} (a : A) : read_only (ret a).
Proof. intros m. reflexivity. Qed.

Lemma read_only_throw {A} (e : exception) : read_only (@throw A e).
Proof. intros m. reflexivity. Qed.

Lemma read_only_abort {A} : read_only (@abort A).
Proof. intros m. reflexivity. Qed.

Lemma read_only_undefined {A} : read_only (@undefined A).
Proof. intros m. reflexivity. Qed.

Lemma read_only_bind {A B} (c : M A) (k : A -> M B) :
  read_only c -> (forall a, read_only (k a)) -> read_only (bind c k).
Proof.
  intros Hc Hk m. unfold bind. specialize (Hc m).
  destruct (c m) as [[a | e | |] m']; cbn [snd] in *; trivial.
  rewrite Hk. trivial.
Qed.

Lemma read_only_int_ (z : Z) : read_only (int_ z).
Proof.
  unfold int_. destruct (in_int z);
    [ apply read_only_ret | apply read_only_undefined ].
Qed.

Lemma read_only_load_timestamp_1 : read_only load_timestamp_1.
Proof. intros m. reflexivity. Qed.

Lemma read_only_load_timestamp_2 : read_only load_timestamp_2.
Proof. intros m. reflexivity. Qed.

Lemma read_only_get_adc (nd : bool) (i : Z) : read_only (get_adc nd i).
Proof. intros m. apply get_adc_this. Qed.

Create HintDb read_only.
#[local] Hint Resolve read_only_ret read_only_int_ read_only_get_adc
  read_only_load_timestamp_1 read_only_load_timestamp_2 : read_only.

Ltac read_only_steps :=
  repeat (apply read_only_bind; [ auto with read_only | intros ? ]);
  auto with read_only.

Lemma read_only_get_u (nd : bool) (femb i : Z) : read_only (get_u nd femb i).
Proof. unfold get_u. read_only_steps. Qed.

Lemma read_only_get_v (nd : bool) (femb i : Z) : read_only (get_v nd femb i).
Proof. unfold get_v. read_only_steps. Qed.

Lemma read_only_get_x (nd : bool) (femb i : Z) : read_only (get_x nd femb i).
Proof. unfold get_x. read_only_steps. Qed.

Lemma read_only_timestamp : read_only timestamp.
Proof. unfold timestamp. read_only_steps. Qed.

(** The execution model can tell a mutation: not every computation is
    read-only. *)
Lemma read_only_is_a_property :
  ~ read_only (fun m : machine =>
                 (Returns tt,
                  {| this := Build_WIB2Frame (header (this m)) []
                                             (trailer (this m));
                     reads := reads m |})).
Proof.
  intros H. specialize (H {| this := zero_frame; reads := [] |}).
  discriminate H.
Qed.

(** ** The channel accessors translate the index *)

Lemma get_u_translates (nd : bool) (femb i : Z) (m : machine) :
  INT_MIN <= 128 * femb <= INT_MAX ->
  INT_MIN <= 128 * femb + i <= INT_MAX ->
  get_u nd femb i m = get_adc nd (128 * femb + i) m.
Proof.
  intros H1 H2. unfold get_u.
  rewrite (int_in_range _ H1). step.
  rewrite (int_in_range _ H2). step. trivial.
Qed.

Lemma get_v_translates (nd : bool) (femb i : Z) (m : machine) :
  INT_MIN <= 128 * femb <= INT_MAX ->
  INT_MIN <= 128 * femb + 40 <= INT_MAX ->
  INT_MIN <= 128 * femb + 40 + i <= INT_MAX ->
  get_v nd femb i m = get_adc nd (128 * femb + 40 + i) m.
Proof.
  intros H1 H2 H3. unfold get_v.
  rewrite (int_in_range _ H1). step.
  rewrite (int_in_range _ H2). step.
  rewrite (int_in_range _ H3). step. trivial.
Qed.

Lemma get_x_translates (nd : bool) (femb i : Z) (m : machine) :
  INT_MIN <= 128 * femb <= INT_MAX ->
  INT_MIN <= 128 * femb + 40 <= INT_MAX ->
  INT_MIN <= 128 * femb + 40 + 40 <= INT_MAX ->
  INT_MIN <= 128 * femb + 40 + 40 + i <= INT_MAX ->
  get_x nd femb i m = get_adc nd (128 * femb + 80 + i) m.
Proof.
  intros H1 H2 H3 H4. unfold get_x.
  rewrite (int_in_range _ H1). step.
  rewrite (int_in_range _ H2). step.
  rewrite (int_in_range _ H3). step.
  rewrite (int_in_range _ H4). step.
  f_equal. lia.
Qed.

(** ** The out-of-range error *)

Lemma get_adc_out_of_range_iff (nd : bool) (i : Z) (f : WIB2Frame) :
  result (get_adc nd i) f = Throws (out_of_range "ADC index out of range")
  <-> i < 0 \/ 255 < i.
Proof.
  unfold result, run. split.
  - intros H.
    destruct (Z.ltb_spec i 0); [ lia |].
    destruct (Z.ltb_spec 255 i); [ lia |].
    rewrite get_adc_run in H by lia. cbv zeta in H.
    destruct (word_index i + 1 <? 112); [ | destruct nd ]; discriminate H.
  - intros H. rewrite get_adc_throws by trivial. trivial.
Qed.

Lemma get_adc_out_of_range_reads_nothing (nd : bool) (i : Z) (f : WIB2Frame) :
  i < 0 \/ 255 < i ->
  reads_of (get_adc nd i) f = [] /\ frame_after (get_adc nd i) f = f.
Proof.
  intros H. unfold reads_of, frame_after, run.
  rewrite get_adc_throws by trivial. split; reflexivity.
Qed.

(** ** Where [get_adc] returns, it returns a 14-bit value *)


Lemma get_adc_returned_value_range (nd : bool) (i v : Z) (f : WIB2Frame) :
  result (get_adc nd i) f = Returns v -> 0 <= v <= 16383.
Proof.
  unfold result, run. intros H.
  destruct (Z.ltb_spec i 0); [ rewrite get_adc_throws in H by lia; discriminate |].
  destruct (Z.ltb_spec 255 i); [ rewrite get_adc_throws in H by lia; discriminate |].
  rewrite get_adc_run in H by lia. cbv zeta in H.
  destruct (word_index i + 1 <? 112); [ | destruct nd; discriminate H ].
  injection H as <-. apply adc_of_words_range.
Qed.

(** ** What [get_adc] reads *)

Lemma get_adc_reads (nd : bool) (i : Z) (f : WIB2Frame) :
  0 <= i <= 253 ->
  reads_of (get_adc nd i) f =
  [Read_adc_words (word_index i); Read_adc_words (word_index i + 1)].
Proof.
  intros H. unfold reads_of, run. rewrite get_adc_returns by trivial.
  reflexivity.
Qed.

Lemma first_word_holds_all_iff (i : Z) :
  0 <= i -> (bits_from_first_word i < 14 <-> 18 < first_bit_position i).
Proof.
  intros H. unfold bits_from_first_word, BITS_PER_ADC.
  change BITS_PER_WORD with 32. lia.
Qed.

(** ** The timestamp *)

Lemma timestamp_bits (t1 t2 : Z) :
  fits 32 t1 -> fits 32 t2 ->
  Z.lor t1 (to_uint64 (Z.shiftl (to_uint64 t2) 32)) = t1 + t2 * 2 ^ 32.
Proof.
  unfold fits, to_uint64. intros H1 H2.
  rewrite (Z.mod_small t2) by lia.
  rewrite Z.shiftl_mul_pow2 by lia.
  rewrite Z.mod_small by nia.
  rewrite <- Z.lxor_lor, <- Z.add_nocarry_lxor; trivial;
    apply Z.bits_inj'; intros n Hn;
    rewrite Z.land_spec, Z.bits_0, <- Z.shiftl_mul_pow2 by lia;
    (destruct (Z.ltb_spec n 32);
     [ rewrite Z.shiftl_spec_low by lia; apply andb_false_r
     | rewrite (fits_testbit_high 32 t1) by (trivial; lia); trivial ]).
Qed.

Lemma timestamp_run (m : machine) :
  timestamp m =
  (Returns (Z.lor (timestamp_1 (header (this m)))
                  (to_uint64 (Z.shiftl (to_uint64 (timestamp_2 (header (this m)))) 32))),
   note Read_timestamp_2 (note Read_timestamp_1 m)).
Proof. reflexivity. Qed.

(** ** Worked frames *)

(** An all-zero buffer decodes its samples and its timestamp to 0. *)
Example zero_frame_decodes :
  result (get_adc false 0) zero_frame = Returns 0 /\
  result (get_adc false 2) zero_frame = Returns 0 /\
  result (get_adc false 253) zero_frame = Returns 0 /\
  result timestamp zero_frame = Returns 0.
Proof. vm_compute. repeat split. Qed.

(** Payload word 0 = [0x00003FFF]: sample 0 is [0x3FFF], sample 1 is 0. *)
Example low_14_bits_set :
  let f := Build_WIB2Frame zero_header (16383 :: repeat 0 111) zero_trailer in
  result (get_adc false 0) f = Returns 16383 /\
  result (get_adc false 1) f = Returns 0.
Proof. vm_compute. repeat split. Qed.

(** The frame packed from the samples 0..255: sample 2 straddles words 0
    and 1, sample 253 is the last one [get_adc] returns. *)
Example ramp_frame_decodes :
  result (get_adc false 2) ramp_frame = Returns 2 /\
  reads_of (get_adc false 2) ramp_frame = [Read_adc_words 0; Read_adc_words 1] /\
  result (get_adc false 253) ramp_frame = Returns 253 /\
  result (get_adc false 254) ramp_frame = Aborts /\
  result (get_adc true 254) ramp_frame = Undefined /\
  result (get_adc false 255) ramp_frame = Aborts /\
  result (get_adc false 256) ramp_frame =
    Throws (out_of_range "ADC index out of range") /\
  result (get_x false 1 45) ramp_frame = Returns 253.
Proof. vm_compute. repeat split. Qed.

(* ================================================================= *)
(** * The claims *)

(** C1.  Round trip through a payload packed from 256 14-bit values: stated
    for every index in [0,255], it holds up to index 253 (lemma
    [get_adc_roundtrip]).  At the indices 254 and 255, on every packed
    frame, [get_adc] does not return the packed value: it stops at the
    second assertion, or with [NDEBUG] reads [adc_words[112]]. *)
Theorem get_adc_roundtrip_stops_at_254 :
  forall (nd : bool) (h : Header) (t : Trailer) (vs : list Z),
    let f := Build_WIB2Frame h (pack vs) t in
    result (get_adc nd 254) f = (if nd then Undefined else Aborts) /\
    result (get_adc nd 255) f = (if nd then Undefined else Aborts) /\
    result (get_adc nd 254) f <> Returns (nth 254 vs 0) /\
    result (get_adc nd 255) f <> Returns (nth 255 vs 0).
Proof.
  intros nd h t vs f. unfold result, run.
  rewrite !get_adc_last_two by lia.
  destruct nd; repeat split; cbn [fst]; discriminate.
Qed.

(** C2.  Both assertions of [get_adc] hold for every index in [0,255]:
    the first one does ([word_index_range]); the second one does not.  At
    index 254 the first word is word 111, the guard of the second read is
    taken, [word_index + 1] is 112, so the assertion fails; with [NDEBUG]
    the read of [adc_words[112]] takes place. *)
Theorem get_adc_second_assert_fails :
  forall f : WIB2Frame,
    word_index 254 = 111 /\
    (bits_from_first_word 254 <? BITS_PER_WORD) = true /\
    (word_index 254 + 1 <? 112) = false /\
    result (get_adc false 254) f = Aborts /\
    reads_of (get_adc true 254) f = [Read_adc_words 111; Read_adc_words 112].
Proof.
  intros f. unfold result, reads_of, run.
  rewrite !get_adc_last_two by lia.
  repeat split.
Qed.

(** C3.  [get_adc] reads the second word exactly when fewer than 14 bits
    come from the first one: at index 0 all 14 bits come from word 0
    (first bit at position 0, not above 18), and [get_adc] reads word 1 all
    the same, since its guard compares with [BITS_PER_WORD]. *)
Theorem get_adc_reads_next_word_at_0 :
  forall (nd : bool) (f : WIB2Frame),
    first_bit_position 0 = 0 /\
    bits_from_first_word 0 = 14 /\
    reads_of (get_adc nd 0) f = [Read_adc_words 0; Read_adc_words 1].
Proof.
  intros nd f. repeat split.
  rewrite get_adc_reads by lia. reflexivity.
Qed.

(** C4, as amended.  With the members as declared, the frame has 118 words
    of 32 bits (472 bytes): 4 of header, 112 of payload and 2 of trailer;
    [eof] is bits 0..7 and [flex_word_24] bits 8..31 of one and the same
    word, frame word 117. *)
Theorem WIB2Frame_layout :
  WIB2Frame_words = 118 /\
  WIB2Frame_bytes = 472 /\
  Header_words = 4 /\
  ADC_WORDS = 112 /\
  Trailer_words = 2 /\
  declared_bits Trailer_fields = 64 /\
  trailer_field "eof" = Some (117, 0, 7) /\
  trailer_field "flex_word_24" = Some (117, 8, 31).
Proof. repeat split. Qed.

(** C4, as stated: a frame of 119 words (476 bytes) with a trailer of 3
    words, [eof] in frame word 117 and [flex_word_24] in frame word 118.
    It does not hold. *)
Lemma WIB2Frame_is_not_119_words :
  ~ (WIB2Frame_words = 119 /\
     WIB2Frame_bytes = 476 /\
     Header_words = 4 /\
     ADC_WORDS = 112 /\
     Trailer_words = 3 /\
     trailer_field "eof" = Some (117, 0, 7) /\
     trailer_field "flex_word_24" = Some (118, 0, 23)).
Proof.
  intros [H _]. vm_compute in H. discriminate H.
Qed.

(** C5.  The out-of-range error is raised exactly when [i < 0] or
    [i > 255], before anything is read ([get_adc_out_of_range_iff],
    [get_adc_out_of_range_reads_nothing]); but the range is not the only
    precondition: at index 255, which is in range, [get_adc] neither returns
    nor raises that error. *)
Theorem get_adc_in_range_without_result :
  forall (nd : bool) (f : WIB2Frame),
    (255 <? 0) || (255 >? 255) = false /\
    (forall v, result (get_adc nd 255) f <> Returns v) /\
    (forall e, result (get_adc nd 255) f <> Throws e) /\
    result (get_adc false 255) f = Aborts.
Proof.
  intros nd f. unfold result, run.
  rewrite !get_adc_last_two by lia.
  destruct nd; repeat split; intros; discriminate.
Qed.

(** C6.  The channel accessors only translate the index
    ([get_u_translates], [get_v_translates], [get_x_translates]), so an
    index outside its group is passed on to [get_adc].  [get_u(1, 126)] has
    its index outside [0,39] and its translated index, 254, inside [0,255]:
    it does not return the value of a neighbouring channel. *)
Theorem get_u_neighbour_without_value :
  forall f : WIB2Frame,
    128 * 1 + 126 = 254 /\
    result (get_u false 1 126) f = Aborts /\
    result (get_u true 1 126) f = Undefined.
Proof.
  intros f. unfold result, run.
  rewrite !get_u_translates by (unfold INT_MIN, INT_MAX; lia).
  rewrite !get_adc_last_two by lia.
  repeat split.
Qed.

(** C7.  [get_adc] returns a value in [0,16383] for every index in
    [0,255]: it does up to index 253 ([get_adc_value_range]), and at index
    254 it returns no value at all. *)
Theorem get_adc_no_value_at_254 :
  forall (nd : bool) (f : WIB2Frame) (v : Z),
    result (get_adc nd 254) f <> Returns v.
Proof.
  intros nd f v. unfold result, run.
  rewrite get_adc_last_two by lia.
  destruct nd; discriminate.
Qed.

(** C8.  On every frame [timestamp()] returns
    [timestamp_1 + timestamp_2 * 2^32], a 64-bit unsigned value; it always
    returns, and leaves the frame as it was.  With
    [timestamp_1 = 0xFFFFFFFF] and [timestamp_2 = 1] that is
    [0x1FFFFFFFF]. *)
Theorem timestamp_value :
  forall f : WIB2Frame,
    WIB2Frame_ok f ->
    let t1 := timestamp_1 (header f) in
    let t2 := timestamp_2 (header f) in
    result timestamp f = Returns (t1 + t2 * 2 ^ 32) /\
    0 <= t1 + t2 * 2 ^ 32 < 2 ^ 64 /\
    frame_after timestamp f = f /\
    (t1 = 4294967295 -> t2 = 1 -> result timestamp f = Returns 8589934591).
Proof.
  intros f [Hh _] t1 t2.
  destruct Hh as (_ & _ & _ & _ & _ & _ & _ & H1 & H2).
  fold t1 in H1. fold t2 in H2.
  assert (E : result timestamp f = Returns (t1 + t2 * 2 ^ 32)).
  { unfold result, run. rewrite timestamp_run. cbn [fst this].
    f_equal. apply timestamp_bits; trivial. }
  unfold fits in H1, H2.
  repeat split; trivial; try lia.
  intros E1 E2. rewrite E, E1, E2. reflexivity.
Qed.

Lemma timestamp_value_witness :
  WIB2Frame_ok rollover_frame /\
  result timestamp rollover_frame = Returns 8589934591.
Proof.
  assert (H : WIB2Frame_ok rollover_frame).
  { unfold WIB2Frame_ok, Header_ok, Trailer_ok, fits, rollover_frame.
    cbn [header trailer adc_words crate frame_version slot fiber femb_valid
         wib_code_1 wib_code_2 timestamp_1 timestamp_2 zero_trailer
         crc20 flex_word_12 eof flex_word_24].
    repeat split; try lia.
    apply Forall_forall. intros w Hw. apply repeat_spec in Hw.
    subst w. unfold is_word. lia. }
  split; [ exact H | ].
  destruct (timestamp_value rollover_frame H) as (_ & _ & _ & E).
  apply E; reflexivity.
Defined.

(** C9.  For an index in [0,255] whose 14 bits lie in one word
    ([(14*i) mod 32 <= 18]), the result of [get_adc] depends on the frame
    through payload word [(14*i)/32] only: two frames that agree on that
    word give the same result. *)
Theorem get_adc_depends_on_one_word :
  forall (nd : bool) (f1 f2 : WIB2Frame) (i : Z),
    0 <= i <= 255 ->
    (14 * i) mod 32 <= 18 ->
    nth (Z.to_nat (14 * i / 32)) (adc_words f1) 0 =
    nth (Z.to_nat (14 * i / 32)) (adc_words f2) 0 ->
    result (get_adc nd i) f1 = result (get_adc nd i) f2.
Proof.
  intros nd f1 f2 i Hi Hb Hw.
  rewrite <- first_bit_position_mod in Hb by lia.
  rewrite <- word_index_div in Hw by lia.
  fold (adc_word f1 (word_index i)) in Hw.
  fold (adc_word f2 (word_index i)) in Hw.
  unfold result, run. rewrite !get_adc_run by trivial. cbv zeta.
  destruct (word_index i + 1 <? 112); [ | destruct nd; reflexivity ].
  cbn [fst this]. f_equal. rewrite Hw.
  replace (bits_from_first_word i) with 14.
  - apply adc_of_words_one_word.
  - unfold bits_from_first_word, BITS_PER_ADC.
    change BITS_PER_WORD with 32. lia.
Qed.

(** C10.  No accessor changes the frame: from every state, and whether the
    call returns, throws or stops, the object after [get_adc], [get_u],
    [get_v], [get_x] or [timestamp] is the object before it, in all its
    header fields, payload words and trailer fields. *)
Theorem accessors_read_only :
  forall (nd : bool) (femb i : Z),
    read_only (get_adc nd i) /\
    read_only (get_u nd femb i) /\
    read_only (get_v nd femb i) /\
    read_only (get_x nd femb i) /\
    read_only timestamp.
Proof.
  intros nd femb i.
  repeat split;
    auto using read_only_get_adc, read_only_get_u, read_only_get_v,
               read_only_get_x, read_only_timestamp.
Qed.

Lemma get_adc_depends_on_one_word_witness :
  0 <= 0 <= 255 /\
  (14 * 0) mod 32 <= 18 /\
  result (get_adc false 0) (one_sample_frame 0) =
  result (get_adc false 0) (one_sample_frame 4294967295).
Proof.
  split; [ lia | ].
  split; [ vm_compute; discriminate | ].
  apply get_adc_depends_on_one_word;
    [ lia | vm_compute; discriminate | reflexivity ].
Defined.

(* ================================================================= *)
(** * Further properties of the accessors *)

(** ** The example frames are frames *)

Lemma zero_header_ok : Header_ok zero_header.
Proof. unfold Header_ok, fits, zero_header; cbn. repeat split; lia. Qed.

Lemma zero_trailer_ok : Trailer_ok zero_trailer.
Proof. unfold Trailer_ok, fits, zero_trailer; cbn. repeat split; lia. Qed.

Lemma ramp_ok : samples_ok ramp.
Proof.
  split; [ reflexivity | ].
  apply Forall_forall. intros v Hv. unfold ramp in Hv.
  apply in_map_iff in Hv. destruct Hv as [k [<- Hk]].
  apply in_seq in Hk. unfold fits. lia.
Qed.

Lemma ramp_frame_ok : WIB2Frame_ok ramp_frame.
Proof.
  unfold WIB2Frame_ok, ramp_frame. cbn [header adc_words trailer].
  split; [ apply zero_header_ok | ].
  split; [ rewrite length_pack; reflexivity | ].
  split; [ apply pack_is_word | apply zero_trailer_ok ].
Qed.

(** ** Outcomes *)

(** X1.  A payload packed from 256 14-bit values reads back: for every
    index from 0 to 253, in either build and whatever the header and the
    trailer hold, [get_adc] returns the value packed at that index, also
    where the value lies across two words. *)
Theorem packed_samples_read_back :
  forall (nd : bool) (h : Header) (t : Trailer) (vs : list Z) (i : Z),
    samples_ok vs ->
    0 <= i <= 253 ->
    result (get_adc nd i) (Build_WIB2Frame h (pack vs) t) =
    Returns (nth (Z.to_nat i) vs 0).
Proof. intros. apply get_adc_roundtrip; trivial. Qed.

Lemma packed_samples_read_back_witness :
  samples_ok ramp /\ 0 <= 2 <= 253 /\
  result (get_adc false 2) ramp_frame = Returns 2.
Proof.
  split; [ exact ramp_ok | ].
  split; [ lia | ].
  exact (packed_samples_read_back false zero_header zero_trailer ramp 2
           ramp_ok ltac:(lia)).
Defined.

(** X2.  [get_adc] throws [std::out_of_range], with the message
    "ADC index out of range", exactly when the index is below 0 or above
    255; it throws nothing else, and when it throws it has read no member
    of the frame. *)
Theorem get_adc_throws_exactly_out_of_range :
  forall (nd : bool) (i : Z) (f : WIB2Frame),
    (result (get_adc nd i) f = Throws (out_of_range "ADC index out of range")
     <-> i < 0 \/ 255 < i) /\
    (forall e, result (get_adc nd i) f = Throws e ->
               e = out_of_range "ADC index out of range" /\
               reads_of (get_adc nd i) f = []).
Proof.
  intros nd i f. split; [ apply get_adc_out_of_range_iff | ].
  intros e H.
  assert (Hi : i < 0 \/ 255 < i).
  { destruct (Z.ltb_spec i 0); [ lia |].
    destruct (Z.ltb_spec 255 i); [ lia |].
    exfalso. unfold result, run in H.
    rewrite get_adc_run in H by lia. cbv zeta in H.
    destruct (word_index i + 1 <? 112); [ | destruct nd ]; discriminate H. }
  unfold result, reads_of, run in *.
  rewrite get_adc_throws in * by trivial.
  cbn [fst snd reads rev] in *. split; congruence.
Qed.


(** X4.  With assertions compiled in, [get_adc] stops at an assertion
    exactly for the indices 254 and 255 and never has undefined behaviour;
    with [NDEBUG] it has undefined behaviour exactly for those two indices
    and never stops at an assertion. *)
Theorem get_adc_stops_exactly_at_254_255 :
  forall (i : Z) (f : WIB2Frame),
    (result (get_adc false i) f = Aborts <-> 254 <= i <= 255) /\
    result (get_adc false i) f <> Undefined /\
    (result (get_adc true i) f = Undefined <-> 254 <= i <= 255) /\
    result (get_adc true i) f <> Aborts.
Proof.
  intros i f. unfold result, run.
  destruct (Z.ltb_spec i 0).
  { rewrite !get_adc_throws by lia. cbn [fst].
    repeat split; try discriminate; lia. }
  destruct (Z.ltb_spec 255 i).
  { rewrite !get_adc_throws by lia. cbn [fst].
    repeat split; try discriminate; lia. }
  destruct (Z.ltb_spec 253 i).
  - rewrite !get_adc_last_two by lia. cbn [fst].
    repeat split; try discriminate; lia.
  - rewrite !get_adc_returns by lia. cbn [fst].
    repeat split; try discriminate; lia.
Qed.

(** X5.  Outside the indices 254 and 255 the assertions make no
    difference: [get_adc] does the same, reads included, with and without
    [NDEBUG]. *)
Theorem get_adc_assertions_are_silent :
  forall (i : Z) (m : machine),
    i < 254 \/ 255 < i ->
    get_adc true i m = get_adc false i m.
Proof.
  intros i m H.
  destruct (Z.ltb_spec i 0); [ rewrite !get_adc_throws by lia; trivial |].
  destruct (Z.ltb_spec 255 i); [ rewrite !get_adc_throws by lia; trivial |].
  rewrite !get_adc_returns by lia. trivial.
Qed.

Lemma get_adc_assertions_are_silent_witness :
  (253 < 254 \/ 255 < 253) /\
  get_adc true 253 (fresh ramp_frame) = get_adc false 253 (fresh ramp_frame).
Proof.
  split; [ left; lia | ].
  apply get_adc_assertions_are_silent. left; lia.
Defined.

(** ** The sample as a field of the payload *)

Lemma le_words_cons_lor (w r : Z) :
  is_word w -> w + 2 ^ 32 * r = Z.lor w (Z.shiftl r 32).
Proof.
  intros Hw. rewrite Z.shiftl_mul_pow2, (Z.mul_comm r) by lia.
  rewrite <- Z.lxor_lor, <- Z.add_nocarry_lxor; trivial;
    apply Z.bits_inj'; intros n Hn;
    rewrite Z.land_spec, Z.bits_0, (Z.mul_comm _ r),
            <- Z.shiftl_mul_pow2 by lia;
    (destruct (Z.ltb_spec n 32);
     [ rewrite Z.shiftl_spec_low by lia; apply andb_false_r
     | rewrite (fits_testbit_high 32 w) by (trivial; lia); trivial ]).
Qed.

Lemma le_words_testbit (ws : list Z) :
  Forall is_word ws ->
  forall (k : nat) (j : Z),
    (k < List.length ws)%nat -> 0 <= j < 32 ->
    Z.testbit (le_words ws) (32 * Z.of_nat k + j) = Z.testbit (nth k ws 0) j.
Proof.
  induction 1 as [| w ws' Hw Hws IH]; intros k j Hk Hj; simpl in Hk.
  - lia.
  - cbn [le_words]. rewrite le_words_cons_lor by trivial.
    rewrite Z.lor_spec.
    destruct k as [| k'].
    + rewrite Z.shiftl_spec_low by lia.
      rewrite orb_false_r. cbn [nth]. f_equal.
    + rewrite (fits_testbit_high 32 w) by (trivial; lia).
      rewrite Z.shiftl_spec by lia. cbn [orb nth].
      rewrite <- IH by (trivial; lia).
      f_equal. lia.
Qed.

Lemma adc_word_is_word (f : WIB2Frame) (k : Z) :
  WIB2Frame_ok f -> 0 <= k < 112 -> is_word (adc_word f k).
Proof.
  intros (_ & Hlen & Hws & _) Hk. unfold ADC_WORDS in Hlen.
  rewrite Forall_forall in Hws. apply Hws, nth_In. lia.
Qed.

(** X6.  On a frame, for every index from 0 to 253, [get_adc] returns the
    14 bits that start at bit [14*i] of the payload, the payload being the
    112 words of [adc_words] read as one number with word 0 least
    significant. *)
Theorem get_adc_is_the_field_at_14i :
  forall (nd : bool) (f : WIB2Frame) (i : Z),
    WIB2Frame_ok f ->
    0 <= i <= 253 ->
    result (get_adc nd i) f =
    Returns ((le_words (adc_words f) / 2 ^ (14 * i)) mod 2 ^ 14).
Proof.
  intros nd f i Hf Hi. unfold result, run.
  rewrite get_adc_returns by trivial. cbn [fst this]. f_equal.
  pose proof (word_index_next_inside i Hi) as Hn.
  pose proof (word_index_range i ltac:(lia)) as Hw.
  pose proof (first_bit_position_range i (proj1 Hi)) as Hb.
  pose proof (offset_split i (proj1 Hi)) as Ho.
  pose proof (adc_word_is_word f (word_index i) Hf ltac:(lia)) as Hw0.
  destruct Hf as (_ & Hlen & Hws & _). unfold ADC_WORDS in Hlen.
  apply Z.bits_inj'. intros n Hn0.
  rewrite <- Z.shiftr_div_pow2 by lia.
  destruct (Z.ltb_spec n 14) as [Hlt | Hge].
  - rewrite Z.mod_pow2_bits_low, Z.shiftr_spec by lia.
    unfold bits_from_first_word, BITS_PER_ADC.
    change BITS_PER_WORD with 32.
    rewrite adc_of_words_testbit by (trivial; lia).
    unfold adc_word.
    destruct (Z.ltb_spec (n + first_bit_position i) 32).
    + rewrite <- (le_words_testbit _ Hws) by lia. f_equal. lia.
    + rewrite <- (le_words_testbit _ Hws) by lia. f_equal. lia.
  - rewrite Z.mod_pow2_bits_high by lia.
    apply (fits_testbit_high 14); try lia.
    pose proof (adc_of_words_range
      (adc_word f (word_index i)) (adc_word f (word_index i + 1))
      (first_bit_position i) (bits_from_first_word i)).
    unfold fits. lia.
Qed.

Lemma get_adc_is_the_field_at_14i_witness :
  WIB2Frame_ok ramp_frame /\ 0 <= 253 <= 253 /\
  result (get_adc true 253) ramp_frame =
  Returns ((le_words (adc_words ramp_frame) / 2 ^ (14 * 253)) mod 2 ^ 14).
Proof.
  split; [ exact ramp_frame_ok | ].
  split; [ lia | ].
  apply get_adc_is_the_field_at_14i; [ exact ramp_frame_ok | lia ].
Defined.

(** X7.  The result of [get_adc] depends on the frame through two payload
    words only, the one that holds the first bit of the sample and the next
    one: two frames that agree on these two words give the same result,
    whatever their headers, trailers and other payload words. *)
Theorem get_adc_depends_on_two_words :
  forall (nd : bool) (f1 f2 : WIB2Frame) (i : Z),
    adc_word f1 (word_index i) = adc_word f2 (word_index i) ->
    adc_word f1 (word_index i + 1) = adc_word f2 (word_index i + 1) ->
    result (get_adc nd i) f1 = result (get_adc nd i) f2.
Proof.
  intros nd f1 f2 i H0 H1. unfold result, run.
  destruct (Z.ltb_spec i 0); [ rewrite !get_adc_throws by lia; trivial |].
  destruct (Z.ltb_spec 255 i); [ rewrite !get_adc_throws by lia; trivial |].
  rewrite !get_adc_run by lia. cbv zeta. cbn [this].
  rewrite H0, H1.
  destruct (word_index i + 1 <? 112); [ | destruct nd ]; reflexivity.
Qed.

Lemma get_adc_depends_on_two_words_witness :
  adc_word ramp_frame (word_index 2)
  = adc_word (Build_WIB2Frame (header rollover_frame)
                (firstn 2 (pack ramp) ++ repeat 7 110) zero_trailer)
             (word_index 2) /\
  adc_word ramp_frame (word_index 2 + 1)
  = adc_word (Build_WIB2Frame (header rollover_frame)
                (firstn 2 (pack ramp) ++ repeat 7 110) zero_trailer)
             (word_index 2 + 1) /\
  result (get_adc false 2) ramp_frame =
  result (get_adc false 2)
         (Build_WIB2Frame (header rollover_frame)
            (firstn 2 (pack ramp) ++ repeat 7 110) zero_trailer).
Proof.
  split; [ reflexivity | ].
  split; [ reflexivity | ].
  apply get_adc_depends_on_two_words; reflexivity.
Defined.

(** ** What is read *)

(** X8.  For every index from 0 to 253 [get_adc] reads two members of the
    frame and no more: [adc_words[(14*i)/32]] and then the word after it,
    both inside the array. *)
Theorem get_adc_reads_two_adjacent_words :
  forall (nd : bool) (i : Z) (f : WIB2Frame),
    0 <= i <= 253 ->
    reads_of (get_adc nd i) f =
      [Read_adc_words (14 * i / 32); Read_adc_words (14 * i / 32 + 1)] /\
    0 <= 14 * i / 32 /\ 14 * i / 32 + 1 < ADC_WORDS.
Proof.
  intros nd i f H.
  rewrite get_adc_reads by trivial.
  pose proof (word_index_next_inside i H).
  pose proof (word_index_range i ltac:(lia)).
  rewrite word_index_div in * by lia.
  unfold ADC_WORDS. repeat split; lia.
Qed.

Lemma get_adc_reads_two_adjacent_words_witness :
  0 <= 253 <= 253 /\
  reads_of (get_adc false 253) zero_frame =
    [Read_adc_words 110; Read_adc_words 111].
Proof.
  split; [ lia | ].
  exact (proj1 (get_adc_reads_two_adjacent_words false 253 zero_frame
                  ltac:(lia))).
Defined.

(** X9.  Every read of [get_adc] stays inside [adc_words], for every [int]
    index, unless assertions are compiled out and the index is 254 or 255:
    the assertion is what keeps the read of [adc_words[112]] from
    happening. *)
Theorem get_adc_reads_inside_unless_unchecked :
  forall (nd : bool) (i : Z) (f : WIB2Frame),
    forallb inside_object (reads_of (get_adc nd i) f) =
    negb (nd && (254 <=? i) && (i <=? 255)).
Proof.
  intros nd i f. unfold reads_of, run.
  destruct (Z.ltb_spec i 0).
  { rewrite get_adc_throws by lia. cbn [snd reads rev forallb]. lia. }
  destruct (Z.ltb_spec 255 i).
  { rewrite get_adc_throws by lia. cbn [snd reads rev forallb]. lia. }
  destruct (Z.ltb_spec 253 i).
  - rewrite get_adc_last_two by lia.
    destruct nd; cbn; lia.
  - rewrite get_adc_returns by lia.
    pose proof (word_index_next_inside i ltac:(lia)).
    pose proof (word_index_range i ltac:(lia)).
    cbn [snd reads note rev app forallb inside_object]. unfold ADC_WORDS.
    lia.
Qed.

(** ** The channel accessors *)

Lemma get_adc_returns_only_up_to_253 (nd : bool) (i v : Z) (f : WIB2Frame) :
  result (get_adc nd i) f = Returns v -> 0 <= i <= 253.
Proof.
  unfold result, run. intros H.
  destruct (Z.ltb_spec i 0);
    [ rewrite get_adc_throws in H by lia; discriminate |].
  destruct (Z.ltb_spec 253 i); [ | lia ].
  destruct (Z.ltb_spec 255 i);
    [ rewrite get_adc_throws in H by lia; discriminate |].
  rewrite get_adc_last_two in H by lia. destruct nd; discriminate.
Qed.

Lemma get_channel_translates (nd : bool) (c : channel) (femb i : Z)
      (m : machine) :
  valid_channel c femb i ->
  get_channel nd c femb i m = get_adc nd (documented_index c femb i) m.
Proof.
  intros [Hf Hi].
  destruct c; unfold get_channel, documented_index, channel_count in *.
  - rewrite get_u_translates by (unfold INT_MIN, INT_MAX; lia).
    f_equal. lia.
  - rewrite get_v_translates by (unfold INT_MIN, INT_MAX; lia).
    f_equal. lia.
  - rewrite get_x_translates by (unfold INT_MIN, INT_MAX; lia).
    f_equal. lia.
Qed.





(** X12.  The channel accessors follow the order that the comment of
    [get_adc] documents: FEMB0 U, V, X, then FEMB1 U, V, X, with 40, 40 and
    48 channels.  Called as intended they do what [get_adc] does at the
    documented place, which is in [0,255]; every index in [0,255] is the
    place of a channel, and of one only. *)
Theorem channel_accessors_follow_documented_order :
  (forall nd c femb i m,
      valid_channel c femb i ->
      get_channel nd c femb i m = get_adc nd (documented_index c femb i) m /\
      0 <= documented_index c femb i <= 255) /\
  (forall k, 0 <= k <= 255 ->
             exists c femb i,
               valid_channel c femb i /\ documented_index c femb i = k) /\
  (forall c femb i c' femb' i',
      valid_channel c femb i -> valid_channel c' femb' i' ->
      documented_index c femb i = documented_index c' femb' i' ->
      c = c' /\ femb = femb' /\ i = i').
Proof.
  split; [ | split ].
  - intros nd c femb i m Hv. split; [ apply get_channel_translates; trivial | ].
    destruct Hv as [Hf Hi].
    destruct c; unfold documented_index, channel_count in *; lia.
  - intros k Hk.
    assert (Hc : forall femb r, 0 <= femb <= 1 -> 0 <= r < 128 ->
                 exists c i, valid_channel c femb i /\
                             documented_index c femb i = 128 * femb + r).
    { intros femb r Hf Hr.
      destruct (Z.ltb_spec r 40); [ exists U_channel, r | ].
      2: destruct (Z.ltb_spec r 80);
           [ exists V_channel, (r - 40) | exists X_channel, (r - 80) ].
      all: unfold valid_channel, documented_index, channel_count; lia. }
    destruct (Z.ltb_spec k 128).
    + destruct (Hc 0 k) as (c & i & Hv & E); try lia.
      exists c, 0, i. split; [ trivial | lia ].
    + destruct (Hc 1 (k - 128)) as (c & i & Hv & E); try lia.
      exists c, 1, i. split; [ trivial | lia ].
  - intros c femb i c' femb' i' [Hf Hi] [Hf' Hi'] E.
    destruct c, c'; unfold documented_index, channel_count in *;
      repeat split; try reflexivity; try lia; exfalso; lia.
Qed.

(** ** The timestamp and its halves *)

(** X13.  The value of [timestamp()] holds both header words unchanged:
    its low 32 bits are [timestamp_1] and the rest is [timestamp_2]; so two
    frames with the same timestamp have the same two words. *)
Theorem timestamp_keeps_both_halves :
  forall f : WIB2Frame,
    WIB2Frame_ok f ->
    exists t,
      result timestamp f = Returns t /\
      t mod 2 ^ 32 = timestamp_1 (header f) /\
      t / 2 ^ 32 = timestamp_2 (header f) /\
      (forall g, WIB2Frame_ok g -> result timestamp g = Returns t ->
                 timestamp_1 (header g) = timestamp_1 (header f) /\
                 timestamp_2 (header g) = timestamp_2 (header f)).
Proof.
  assert (V : forall g, WIB2Frame_ok g ->
                result timestamp g =
                Returns (timestamp_1 (header g)
                         + timestamp_2 (header g) * 2 ^ 32) /\
                fits 32 (timestamp_1 (header g)) /\
                fits 32 (timestamp_2 (header g))).
  { intros g [Hh _].
    destruct Hh as (_ & _ & _ & _ & _ & _ & _ & H1 & H2).
    repeat split; try apply H1; try apply H2.
    unfold result, run. rewrite timestamp_run. cbn [fst this].
    f_equal. apply timestamp_bits; trivial. }
  intros f Hf. destruct (V f Hf) as (E & H1 & H2). unfold fits in *.
  eexists. split; [ exact E | ].
  split; [ | split ].
  - rewrite Z.mod_add by lia. apply Z.mod_small. lia.
  - rewrite Z.div_add by lia. rewrite Z.div_small by lia. lia.
  - intros g Hg Eg. destruct (V g Hg) as (E' & H1' & H2').
    unfold fits in *. rewrite E' in Eg. injection Eg as Eg. lia.
Qed.

Lemma timestamp_keeps_both_halves_witness :
  WIB2Frame_ok ramp_frame /\
  exists t, result timestamp ramp_frame = Returns t /\ t mod 2 ^ 32 = 0.
Proof.
  split; [ exact ramp_frame_ok | ].
  destruct (timestamp_keeps_both_halves ramp_frame ramp_frame_ok)
    as (t & E & Hlo & _).
  exists t. split; [ exact E | exact Hlo ].
Defined.

(** ** Layout of the header and size of the payload *)

(** X14.  The nine bit-fields of [struct Header] fill four words with no
    bit left over: word 0 holds [crate] in bits 0..7, [frame_version] in
    8..11, [slot] in 12..14, [fiber] in 15, [femb_valid] in 16..17 and
    [wib_code_1] in 18..31; [wib_code_2], [timestamp_1] and [timestamp_2]
    are words 1, 2 and 3. *)
Theorem Header_layout :
  Header_words = 4 /\
  declared_bits Header_fields = word_bits * Header_words /\
  header_field "crate" = Some (0, 0, 7) /\
  header_field "frame_version" = Some (0, 8, 11) /\
  header_field "slot" = Some (0, 12, 14) /\
  header_field "fiber" = Some (0, 15, 15) /\
  header_field "femb_valid" = Some (0, 16, 17) /\
  header_field "wib_code_1" = Some (0, 18, 31) /\
  header_field "wib_code_2" = Some (1, 0, 31) /\
  header_field "timestamp_1" = Some (2, 0, 31) /\
  header_field "timestamp_2" = Some (3, 0, 31).
Proof. repeat split. Qed.

(** X15.  [adc_words] has exactly the size of 256 samples of 14 bits.
    Every sample with index in [0,255] ends inside the array, and a sample
    that does not lie in one word (fewer than 14 bits in its first word)
    always has its next word inside the array: no sample needs
    [adc_words[112]]. *)
Theorem samples_fit_in_adc_words :
  forall i : Z,
    0 <= i <= 255 ->
    BITS_PER_ADC * 256 = BITS_PER_WORD * ADC_WORDS /\
    BITS_PER_WORD * word_index i + first_bit_position i + BITS_PER_ADC
      <= BITS_PER_WORD * ADC_WORDS /\
    (bits_from_first_word i < BITS_PER_ADC -> word_index i + 1 < ADC_WORDS).
Proof.
  intros i H.
  pose proof (offset_split i (proj1 H)) as Ho.
  pose proof (first_bit_position_range i (proj1 H)) as Hb.
  unfold bits_from_first_word, BITS_PER_ADC, ADC_WORDS in *.
  change BITS_PER_WORD with 32 in *.
  repeat split; lia.
Qed.

Lemma samples_fit_in_adc_words_witness :
  0 <= 253 <= 255 /\
  bits_from_first_word 253 < BITS_PER_ADC /\
  word_index 253 + 1 < ADC_WORDS.
Proof.
  split; [ lia | ].
  split; [ reflexivity | ].
  apply (samples_fit_in_adc_words 253); [ lia | reflexivity ].
Defined.

(** ** Calls in sequence *)

Lemma Returns_inj {A} (a b : A) : Returns a = Returns b -> a = b.
Proof. congruence. Qed.

Lemma get_adc_returns_from (nd : bool) (i v : Z) (m : machine) :
  result (get_adc nd i) (this m) = Returns v ->
  exists m', get_adc nd i m = (Returns v, m') /\ this m' = this m.
Proof.
  intros H. pose proof (get_adc_returns_only_up_to_253 _ _ _ _ H) as Hi.
  unfold result, run in H.
  rewrite get_adc_returns in * by trivial. cbn [fst this] in H.
  injection H as <-. eexists. split; reflexivity.
Qed.

(** X16.  Accessors called one after another on the same object return
    what each of them returns when called alone: earlier calls leave
    nothing behind that a later call sees. *)
Theorem accessors_in_sequence :
  forall (nd : bool) (i j a b t : Z) (f : WIB2Frame),
    result (get_adc nd i) f = Returns a ->
    result timestamp f = Returns t ->
    result (get_adc nd j) f = Returns b ->
    result (x <- get_adc nd i ;;
            y <- timestamp ;;
            z <- get_adc nd j ;;
            ret (x, y, z)) f
    = Returns (a, t, b).
Proof.
  intros nd i j a b t f Ha Ht Hb. unfold result, run.
  destruct (get_adc_returns_from nd i a {| this := f; reads := [] |} Ha)
    as (m1 & E1 & T1).
  unfold bind at 1. rewrite E1.
  unfold bind at 1. rewrite timestamp_run.
  unfold result, run in Ht. rewrite timestamp_run in Ht.
  cbn [fst this] in Ht. apply Returns_inj in Ht.
  cbn [this] in T1. rewrite T1, Ht.
  set (m2 := note Read_timestamp_2 (note Read_timestamp_1 m1)).
  assert (T2 : this m2 = f) by (subst m2; cbn [this note]; exact T1).
  rewrite <- T2 in Hb.
  destruct (get_adc_returns_from nd j b m2 Hb) as (m3 & E3 & _).
  unfold bind. rewrite E3. reflexivity.
Qed.

Lemma accessors_in_sequence_witness :
  result (get_adc false 2) ramp_frame = Returns 2 /\
  result timestamp ramp_frame = Returns 0 /\
  result (get_adc false 253) ramp_frame = Returns 253 /\
  result (x <- get_adc false 2 ;;
          y <- timestamp ;;
          z <- get_adc false 253 ;;
          ret (x, y, z)) ramp_frame
  = Returns (2, 0, 253).
Proof.
  split; [ reflexivity | ].
  split; [ reflexivity | ].
  split; [ reflexivity | ].
  apply accessors_in_sequence; reflexivity.
Defined.

(** ** Errors of the channel accessors *)

(** X17.  A channel accessor throws [std::out_of_range] exactly when the
    index it passes to [get_adc] is outside [0,255], whatever [femb] and [i]
    are (no step of the [int] arithmetic overflowing): a wrong [femb] or
    [i] is an error only if the translated index leaves that range. *)
Theorem channel_accessors_throw_by_translated_index :
  forall (nd : bool) (femb i : Z) (f : WIB2Frame),
    INT_MIN <= 128 * femb ->
    128 * femb + 80 <= INT_MAX ->
    INT_MIN <= 128 * femb + i ->
    128 * femb + 80 + i <= INT_MAX ->
    (result (get_u nd femb i) f = Throws (out_of_range "ADC index out of range")
     <-> 128 * femb + i < 0 \/ 255 < 128 * femb + i) /\
    (result (get_v nd femb i) f = Throws (out_of_range "ADC index out of range")
     <-> 128 * femb + 40 + i < 0 \/ 255 < 128 * femb + 40 + i) /\
    (result (get_x nd femb i) f = Throws (out_of_range "ADC index out of range")
     <-> 128 * femb + 80 + i < 0 \/ 255 < 128 * femb + 80 + i).
Proof.
  intros nd femb i f H1 H2 H3 H4. unfold result, run.
  rewrite get_u_translates, get_v_translates, get_x_translates by lia.
  split; [ | split ]; apply get_adc_out_of_range_iff.
Qed.

Lemma channel_accessors_throw_by_translated_index_witness :
  (INT_MIN <= 128 * 2 /\ 128 * 2 + 80 <= INT_MAX /\
   INT_MIN <= 128 * 2 + 0 /\ 128 * 2 + 80 + 0 <= INT_MAX) /\
  result (get_u false 2 0) zero_frame
  = Throws (out_of_range "ADC index out of range").
Proof.
  split; [ unfold INT_MIN, INT_MAX; lia | ].
  apply (channel_accessors_throw_by_translated_index false 2 0 zero_frame
           ltac:(unfold INT_MIN; lia) ltac:(unfold INT_MAX; lia)
           ltac:(unfold INT_MIN; lia) ltac:(unfold INT_MAX; lia)).
  right. lia.
Defined.
